(** * gtts_player: the gTTS voice adapter of the Anki add-on

    A shallow embedding of [code/gtts_player/__init__.py]: the locale table
    [orig_langs], the voice enumeration [get_available_voices], the
    background synthesis step [_play] and the main-thread completion
    handler [_on_done], followed by the properties the specification
    states about them. *)

From Stdlib Require Import ZArith List Ascii String SpecFloat Lia.
From stdpp Require Import gmap strings list.

Local Open Scope string_scope.
Local Open Scope list_scope.

(** ** Python strings

    A Python [str] is modelled as a [string] whose characters are code
    points below 256. Every key of [orig_langs] is plain ASCII, where the
    functions below coincide with Python's. *)

Module PyStr.

(** [needle in s] for a one-character needle. *)
Fixpoint contains (needle : ascii) (s : string) : bool :=
  match s with
  | EmptyString => false
  | String c rest => if Ascii.eqb c needle then true else contains needle rest
  end.

(** [s.split(sep)] for a one-character separator: cuts at every
    occurrence and always returns at least one piece. *)
Fixpoint split (sep : ascii) (s : string) : list string :=
  match s with
  | EmptyString => [EmptyString]
  | String c rest =>
      if Ascii.eqb c sep then EmptyString :: split sep rest
      else match split sep rest with
           | [] => [String c EmptyString]
           | w :: ws => String c w :: ws
           end
  end.

Definition is_ascii_lower (c : ascii) : bool :=
  let n := nat_of_ascii c in (97 <=? n)%nat && (n <=? 122)%nat.

Definition is_ascii_upper (c : ascii) : bool :=
  let n := nat_of_ascii c in (65 <=? n)%nat && (n <=? 90)%nat.

Definition upper_char (c : ascii) : ascii :=
  if is_ascii_lower c then ascii_of_nat (nat_of_ascii c - 32) else c.

Definition lower_char (c : ascii) : ascii :=
  if is_ascii_upper c then ascii_of_nat (nat_of_ascii c + 32) else c.

Fixpoint map_chars (f : ascii -> ascii) (s : string) : string :=
  match s with
  | EmptyString => EmptyString
  | String c rest => String (f c) (map_chars f rest)
  end.

(** [s.upper()] and [s.lower()] on ASCII text. *)
Definition upper (s : string) : string := map_chars upper_char s.
Definition lower (s : string) : string := map_chars lower_char s.

(** [c.isspace()]: TAB, LF, VT, FF, CR, the separators FS/GS/RS/US,
    SPACE, and in the Latin-1 range NEL and NBSP. *)
Definition isspace (c : ascii) : bool :=
  let n := nat_of_ascii c in
  ((9 <=? n)%nat && (n <=? 13)%nat)
  || ((28 <=? n)%nat && (n <=? 32)%nat)
  || (n =? 133)%nat || (n =? 160)%nat.

Fixpoint lstrip (s : string) : string :=
  match s with
  | EmptyString => EmptyString
  | String c rest => if isspace c then lstrip rest else s
  end.

Fixpoint rstrip (s : string) : string :=
  match s with
  | EmptyString => EmptyString
  | String c rest =>
      match rstrip rest with
      | EmptyString => if isspace c then EmptyString else String c EmptyString
      | kept => String c kept
      end
  end.

(** [s.strip()] *)
Definition strip (s : string) : string := rstrip (lstrip s).

(** Truth value of a string: [bool(s)], false exactly for [""]. *)
Definition truthy (s : string) : bool :=
  match s with
  | EmptyString => false
  | String _ _ => true
  end.

Definition is_ascii (s : string) : bool :=
  forallb (fun c => (nat_of_ascii c <? 128)%nat) (list_ascii_of_string s).

End PyStr.

(** ** Exceptions *)

Inductive exn : Type :=
| PlayerInterrupted               (* aqt.sound.PlayerInterrupted *)
| AssertionError
| AttributeError (attr : string)
| ValueError
| ExternalError (msg : string).   (* anything raised by the gTTS library or the host *)

(** ** The locale table *)

(** this is the language map that gtts.lang.tts_langs() outputs;
    a [dict] iterates in insertion order, so it is kept as a list. *)
Definition orig_langs : list (string * string) :=
  [ ("af", "Afrikaans");
    ("ar", "Arabic");
    ("bn", "Bengali");
    ("bs", "Bosnian");
    ("ca", "Catalan");
    ("cs", "Czech");
    ("cy", "Welsh");
    ("da", "Danish");
    ("de", "German");
    ("el", "Greek");
    ("en-au", "English (Australia)");
    ("en-ca", "English (Canada)");
    ("en-gb", "English (UK)");
    ("en-gh", "English (Ghana)");
    ("en-ie", "English (Ireland)");
    ("en-in", "English (India)");
    ("en-ng", "English (Nigeria)");
    ("en-nz", "English (New Zealand)");
    ("en-ph", "English (Philippines)");
    ("en-tz", "English (Tanzania)");
    ("en-uk", "English (UK)");
    ("en-us", "English (US)");
    ("en-za", "English (South Africa)");
    ("eo", "Esperanto");
    ("es-es", "Spanish (Spain)");
    ("es-us", "Spanish (United States)");
    ("et", "Estonian");
    ("fi", "Finnish");
    ("fr-ca", "French (Canada)");
    ("fr-fr", "French (France)");
    ("gu", "Gujarati");
    ("hi", "Hindi");
    ("hr", "Croatian");
    ("hu", "Hungarian");
    ("hy", "Armenian");
    ("id", "Indonesian");
    ("is", "Icelandic");
    ("it", "Italian");
    ("ja", "Japanese");
    ("jw", "Javanese");
    ("km", "Khmer");
    ("kn", "Kannada");
    ("ko", "Korean");
    ("la", "Latin");
    ("lv", "Latvian");
    ("mk", "Macedonian");
    ("ml", "Malayalam");
    ("mr", "Marathi");
    ("my", "Myanmar (Burmese)");
    ("ne", "Nepali");
    ("nl", "Dutch");
    ("no", "Norwegian");
    ("pl", "Polish");
    ("pt-br", "Portuguese (Brazil)");
    ("pt-pt", "Portuguese (Portugal)");
    ("ro", "Romanian");
    ("ru", "Russian");
    ("si", "Sinhala");
    ("sk", "Slovak");
    ("sq", "Albanian");
    ("sr", "Serbian");
    ("su", "Sundanese");
    ("sv", "Swedish");
    ("sw", "Swahili");
    ("ta", "Tamil");
    ("te", "Telugu");
    ("th", "Thai");
    ("tl", "Filipino");
    ("tr", "Turkish");
    ("uk", "Ukrainian");
    ("ur", "Urdu");
    ("vi", "Vietnamese");
    ("zh-cn", "Chinese (Mandarin/China)");
    ("zh-tw", "Chinese (Mandarin/Taiwan)") ].

(** ** Voices *)

(** we subclass the default voice object to store the gtts language code:
    [TTSVoice] has [name] and [lang], [GTTSVoice] adds [gtts_lang]. *)
Record GTTSVoice : Type := mkGTTSVoice {
  name : string;
  lang : string;
  gtts_lang : string
}.

#[global] Instance GTTSVoice_eq_dec : EqDecision GTTSVoice.
Proof. solve_decision. Defined.

(** ** Voice enumeration *)

Section Enumeration.

(** [anki.lang.compatMap]: the host's table from bare language codes to
    standard locale codes. It belongs to the host, so it is a parameter. *)
Variable compatMap : gmap string string.

(** One iteration of the loop of [get_available_voices]: [voices] is the
    list built so far, the result is the list after the iteration
    ([continue] leaves it as it is), or the exception raised. *)
Definition voices_step (voices : list GTTSVoice) (item : string * string)
  : exn + list GTTSVoice :=
  let '(code, _) := item in
  if PyStr.contains "-" code then
    (* head, tail = code.split("-") *)
    match PyStr.split "-" code with
    | [head; tail] =>
        let std_code := head +:+ "_" +:+ PyStr.upper tail in
        inr (voices ++ [mkGTTSVoice "gTTS" std_code code])
    | _ => inl ValueError
    end
  else
    match compatMap !! code with
    | Some std_code =>
        if negb (PyStr.truthy std_code) then inr voices
        else inr (voices ++ [mkGTTSVoice "gTTS" std_code code])
    | None => inr voices
    end.

Fixpoint voices_loop (items : list (string * string)) (voices : list GTTSVoice)
  : exn + list GTTSVoice :=
  match items with
  | [] => inr voices
  | item :: rest =>
      match voices_step voices item with
      | inl e => inl e
      | inr voices' => voices_loop rest voices'
      end
  end.

Definition get_available_voices : exn + list GTTSVoice :=
  voices_loop orig_langs [].

End Enumeration.

(** ** Tags and voice matches (host types) *)

(** [anki.sound.TTSTag]; the adapter reads [field_text] and [speed], the
    other fields are read by the host's voice matching. [speed] is a
    Python float, that is an IEEE 754 binary64 value. *)
Record TTSTag : Type := mkTTSTag {
  field_text : string;
  tag_lang : string;
  tag_voices : list string;
  speed : spec_float;
  other_args : list string
}.

(** [anki.sound.AVTag = Union[SoundOrVideoTag, TTSTag]] *)
Inductive AVTag : Type :=
| SoundOrVideoTag (filename : string)
| TTS (tag : TTSTag).

(** [aqt.tts.TTSVoiceMatch]; the voices a player is matched against are
    those it enumerated, so [voice] is a [GTTSVoice]. *)
Record TTSVoiceMatch : Type := mkTTSVoiceMatch {
  voice : GTTSVoice;
  rank : Z
}.

(** ** Python floats *)

(** The float [1.0], to which the literal [1] of [tag.speed < 1] is
    compared: mantissa [2^52], exponent [-52]. *)
Definition float_one : spec_float := S754_finite false 4503599627370496 (-52).

(** [x < y] and [x >= y] on floats; both are false when [x] is a NaN. *)
Definition float_lt (x y : spec_float) : bool := SFltb x y.
Definition float_ge (x y : spec_float) : bool := SFleb y x.

(** ** The world the adapter acts on *)

(** The object built by [gTTS(text=..., lang=..., lang_check=..., slow=...)]. *)
Record gTTS : Type := mk_gTTS {
  text : string;
  tts_lang : string;
  lang_check : bool;
  slow : bool
}.

(** [aqt.sound.OnDoneCallback]: a closure of the host, known by its identity. *)
Definition OnDoneCallback : Type := nat.

(** Calls the adapter makes into the external library and into the host,
    oldest first. *)
Inductive event : Type :=
| EvSave (tts : gTTS) (path : string)     (* gTTS(...) followed by tts.save(path) *)
| EvInsertFile (path : string)            (* av_player.insert_file(path) *)
| EvCallback (cb : OnDoneCallback).       (* cb() *)

Definition audio : Type := list Byte.byte.

Record state : Type := mkState {
  _tmpfile : option string;        (* self._tmpfile; None while the attribute is unset *)
  disk : gmap string audio;        (* the files that exist, by path *)
  enqueued : list string;          (* av_player's queue, front first *)
  events : list event
}.

(** A freshly constructed [GTTSPlayer]: no constructor of the class
    hierarchy assigns [_tmpfile]; line 149 of [_play] is its only
    assignment. *)
Definition new_player (d : gmap string audio) (q : list string) : state :=
  mkState None d q [].

(** [concurrent.futures.Future] of a finished task that returns [None]:
    the exception it raised, or its value. *)
Definition Future : Type := exn + unit.

(** ** State and exception monad *)

Definition M (A : Type) : Type := state -> (exn + A) * state.

Definition ret {A : Type} (a : A) : M A := fun s => (inr a, s).

Definition raise {A : Type} (e : exn) : M A := fun s => (inl e, s).

Definition bind {A B : Type} (c : M A) (k : A -> M B) : M B :=
  fun s =>
    match c s with
    | (inl e, s') => (inl e, s')
    | (inr a, s') => k a s'
    end.

Declare Scope py_scope.
Delimit Scope py_scope with py.
Notation "x <- c ;; k" := (bind c (fun x => k))
  (at level 100, c at next level, right associativity) : py_scope.
Notation "c ;;; k" := (bind c (fun _ => k))
  (at level 100, right associativity) : py_scope.
Local Open Scope py_scope.

(** [try: body  except <caught>: handler] *)
Definition try_except {A : Type} (body : M A) (caught : exn -> bool) (handler : M A) : M A :=
  fun s =>
    match body s with
    | (inl e, s') => if caught e then handler s' else (inl e, s')
    | (inr a, s') => (inr a, s')
    end.

(** [isinstance(e, PlayerInterrupted)]; the class has no subclass. *)
Definition is_PlayerInterrupted (e : exn) : bool :=
  match e with
  | PlayerInterrupted => true
  | _ => false
  end.

(** [self._tmpfile = path] *)
Definition set_tmpfile (path : string) : M unit :=
  fun s => (inr tt, mkState (Some path) (disk s) (enqueued s) (events s)).

(** Reading [self._tmpfile]: an unset attribute raises [AttributeError]. *)
Definition get_tmpfile : M string :=
  fun s =>
    match _tmpfile s with
    | Some path => (inr path, s)
    | None => (inl (AttributeError "_tmpfile"), s)
    end.

(** [os.path.exists(path)] *)
Definition os_path_exists (path : string) : M bool :=
  fun s => (inr (bool_decide (is_Some (disk s !! path))), s).

(** [ret.result()] *)
Definition result (fut : Future) : M unit :=
  match fut with
  | inl e => raise e
  | inr v => ret v
  end.

(** Modelled from the spec: [av_player.insert_file] is the host's; it
    inserts the file at the front of the playback queue. *)
Definition insert_file (path : string) : M unit :=
  fun s =>
    (inr tt,
     mkState (_tmpfile s) (disk s) (path :: enqueued s) (events s ++ [EvInsertFile path])).

(** [cb()]: the continuation is the host's, the adapter only calls it. *)
Definition call (cb : OnDoneCallback) : M unit :=
  fun s =>
    (inr tt, mkState (_tmpfile s) (disk s) (enqueued s) (events s ++ [EvCallback cb])).

(** ** The player *)

Section Player.

(** [TTSPlayer.voice_for_tag], the host's voice selection. *)
Variable voice_for_tag : TTSTag -> option TTSVoiceMatch.

(** [TTSPlayer.temp_file_for_tag_and_voice], the host's naming function. *)
Variable temp_file_for_tag_and_voice : TTSTag -> GTTSVoice -> string.

(** What the external library does to the disk when asked to synthesize
    [tts] into [path], and the exception it raises, if any. *)
Variable gtts_library : gTTS -> string -> gmap string audio -> option exn * gmap string audio.

(** [tts.save(path)] *)
Definition save (tts : gTTS) (path : string) : M unit :=
  fun s =>
    let '(failure, disk') := gtts_library tts path (disk s) in
    let s' := mkState (_tmpfile s) disk' (enqueued s) (events s ++ [EvSave tts path]) in
    match failure with
    | Some e => (inl e, s')
    | None => (inr tt, s')
    end.

(** this is called on a background thread, and will not block the UI *)
Definition _play (tag : AVTag) : M unit :=
  match tag with
  | SoundOrVideoTag _ => raise AssertionError      (* assert isinstance(tag, TTSTag) *)
  | TTS tag =>
      match voice_for_tag tag with
      | None => raise AssertionError               (* assert match *)
      | Some match_ =>
          let voice := voice match_ in
          (* is the field blank? *)
          if negb (PyStr.truthy (PyStr.strip (field_text tag))) then ret tt
          else
            (* get filename, and skip if already generated *)
            set_tmpfile (temp_file_for_tag_and_voice tag voice +:+ ".mp3") ;;;
            path <- get_tmpfile ;;
            found <- os_path_exists path ;;
            if found : bool then ret tt
            else
              (* gtts only offers 'normal' and 'slow' *)
              let slow := float_lt (speed tag) float_one in
              (* call gtts to save an mp3 file to the path *)
              let tts := mk_gTTS (field_text tag) (gtts_lang voice) false slow in
              path <- get_tmpfile ;;
              save tts path
      end
  end.

(** this is called on the main thread, after _play finishes *)
Definition _on_done (fut : Future) (cb : OnDoneCallback) : M unit :=
  interrupted <-
    try_except (result fut ;;; ret false)
               is_PlayerInterrupted
               (* don't fire done callback when interrupted *)
               (ret true) ;;
  if interrupted : bool then ret tt
  else
    (* inject file into the top of the audio queue *)
    path <- get_tmpfile ;;
    insert_file path ;;;
    (* then tell player to advance, which will cause the file to be played *)
    call cb.

(** we don't support stopping while the file is being downloaded *)
Definition stop : M unit := ret tt.

End Player.

(** ** A sample host, for the worked examples *)

Module Sample.

Definition en_us : GTTSVoice := mkGTTSVoice "gTTS" "en_US" "en-us".

(** A host that matches every tag of language "en_US" to [en_us] by the
    language fall-back (rank -100) and matches nothing else. *)
Definition voice_for_tag (tag : TTSTag) : option TTSVoiceMatch :=
  if bool_decide (tag_lang tag = "en_US") then Some (mkTTSVoiceMatch en_us (-100))
  else None.

Definition temp_file_for_tag_and_voice (tag : TTSTag) (v : GTTSVoice) : string :=
  "/tmp/tts-" +:+ name v +:+ "-" +:+ lang v +:+ "-" +:+ field_text tag.

(** A library that always succeeds and writes one byte of audio. *)
Definition gtts_library (tts : gTTS) (path : string) (d : gmap string audio)
  : option exn * gmap string audio :=
  (None, <[path := [Byte.x00]]> d).

(** The float [0.8]. *)
Definition speed_0_8 : spec_float := S754_finite false 7205759403792794 (-53).

(** The float [1.5]. *)
Definition speed_1_5 : spec_float := S754_finite false 6755399441055744 (-52).

Definition hello : TTSTag := mkTTSTag "hello" "en_US" ["gTTS"] speed_0_8 [].
Definition blank : TTSTag := mkTTSTag "  " "en_US" ["gTTS"] float_one [].

Definition hello_path : string := "/tmp/tts-gTTS-en_US-hello.mp3".

End Sample.

(** ** Auxiliary definitions for the enumeration proofs *)

(** What one table entry contributes when the loop does not raise. *)
Definition entry_voice (compatMap : gmap string string) (item : string * string)
  : option GTTSVoice :=
  let '(code, _) := item in
  if PyStr.contains "-" code then
    match PyStr.split "-" code with
    | [head; tail] => Some (mkGTTSVoice "gTTS" (head +:+ "_" +:+ PyStr.upper tail) code)
    | _ => None
    end
  else
    match compatMap !! code with
    | Some std_code =>
        if PyStr.truthy std_code then Some (mkGTTSVoice "gTTS" std_code code) else None
    | None => None
    end.

(** A key is regular when it has no separator, or exactly one, with a
    lower-case ASCII head in front of it. *)
Definition regular_code (code : string) : bool :=
  if PyStr.contains "-" code then
    match PyStr.split "-" code with
    | [head; tail] =>
        bool_decide (PyStr.lower head = head)
        && bool_decide (code = head +:+ "-" +:+ tail)
    | _ => false
    end
  else true.

Definition regular_table (items : list (string * string)) : bool :=
  forallb (fun item => regular_code (fst item) && PyStr.is_ascii (fst item)) items.

(** ** Auxiliary definitions for the further properties *)

(** [s.count(c)] for a one-character [c]. *)
Fixpoint count_char (c : ascii) (s : string) : nat :=
  match s with
  | EmptyString => 0
  | String d rest =>
      if Ascii.eqb d c then S (count_char c rest) else count_char c rest
  end.

(** Every character of [s] is whitespace (true for the empty string). *)
Fixpoint all_whitespace (s : string) : bool :=
  match s with
  | EmptyString => true
  | String c rest => PyStr.isspace c && all_whitespace rest
  end.

(** The entry's key has a region separator. *)
Definition has_region (item : string * string) : bool :=
  PyStr.contains "-" (fst item).

(** The compatibility table gives [code] a non-empty image. *)
Definition mapped (compatMap : gmap string string) (code : string) : bool :=
  match compatMap !! code with
  | Some std_code => PyStr.truthy std_code
  | None => false
  end.

(** The entry has no separator and its key is mapped. *)
Definition bare_mapped (compatMap : gmap string string) (item : string * string) : bool :=
  negb (has_region item) && mapped compatMap (fst item).

(** The voice has a region separator in its gTTS code. *)
Definition region_voice (v : GTTSVoice) : bool :=
  PyStr.contains "-" (gtts_lang v).

Section Request.

Variable voice_for_tag : TTSTag -> option TTSVoiceMatch.
Variable temp_file_for_tag_and_voice : TTSTag -> GTTSVoice -> string.
Variable gtts_library : gTTS -> string -> gmap string audio -> option exn * gmap string audio.

(** Modelled from the spec: the host's scheduling is not part of the
    add-on. It runs [_play] on a background worker and then, on the main
    thread, [_on_done] with the future that holds the outcome of [_play]. *)
Definition request (tag : AVTag) (cb : OnDoneCallback) : M unit :=
  fun s =>
    let '(outcome, s1) := _play voice_for_tag temp_file_for_tag_and_voice gtts_library tag s in
    _on_done outcome cb s1.

End Request.

(** A library that always fails and leaves the disk alone. *)
Definition failing_library (e : exn) (tts : gTTS) (path : string) (d : gmap string audio)
  : option exn * gmap string audio :=
  (Some e, d).

(** * Properties *)

(** ** Voice enumeration *)

Section EnumerationFacts.

Variable compatMap : gmap string string.

Lemma regular_code_step voices code name :
  regular_code code = true ->
  voices_step compatMap voices (code, name)
  = inr (voices ++ option_list (entry_voice compatMap (code, name))).
Proof.
  unfold regular_code, voices_step, entry_voice.
  destruct (PyStr.contains "-" code).
  - destruct (PyStr.split "-" code) as [|head [|tail [|? ?]]]; try discriminate.
    reflexivity.
  - intros _. destruct (compatMap !! code) as [std|]; simpl.
    + destruct (PyStr.truthy std); simpl; [reflexivity | by rewrite app_nil_r].
    + by rewrite app_nil_r.
Qed.

Lemma voices_loop_regular items voices :
  regular_table items = true ->
  voices_loop compatMap items voices
  = inr (voices ++ omap (entry_voice compatMap) items).
Proof.
  revert voices. induction items as [|[code name] rest IH]; intros voices Hreg.
  - simpl. by rewrite app_nil_r.
  - simpl in Hreg. apply andb_prop in Hreg as [Hitem Hrest].
    apply andb_prop in Hitem as [Hcode _].
    cbn [voices_loop]. rewrite (regular_code_step _ _ _ Hcode).
    rewrite (IH _ Hrest). cbn [omap list_omap].
    destruct (entry_voice compatMap (code, name)); simpl.
    + by rewrite <- app_assoc.
    + by rewrite app_nil_r.
Qed.

Lemma orig_langs_regular : regular_table orig_langs = true.
Proof. vm_compute. reflexivity. Qed.

Lemma get_available_voices_eq :
  get_available_voices compatMap = inr (omap (entry_voice compatMap) orig_langs).
Proof.
  unfold get_available_voices.
  by rewrite (voices_loop_regular _ _ orig_langs_regular).
Qed.

Lemma orig_langs_regular_code code name :
  (code, name) ∈ orig_langs -> regular_code code = true.
Proof.
  intros Hin. pose proof orig_langs_regular as Hreg.
  unfold regular_table in Hreg. rewrite forallb_forall in Hreg.
  apply list_elem_of_In in Hin. apply Hreg in Hin.
  by apply andb_prop in Hin as [? _].
Qed.

Lemma entry_voice_gtts_lang item v :
  entry_voice compatMap item = Some v -> gtts_lang v = fst item /\ name v = "gTTS".
Proof.
  destruct item as [code nm]. unfold entry_voice.
  destruct (PyStr.contains "-" code).
  - destruct (PyStr.split "-" code) as [|head [|tail [|? ?]]]; try discriminate.
    by intros [= <-].
  - destruct (compatMap !! code) as [std|]; [|discriminate].
    destruct (PyStr.truthy std); [|discriminate]. by intros [= <-].
Qed.

Lemma truthy_nonempty s : PyStr.truthy s = true <-> s <> "".
Proof. destruct s; simpl; split; congruence. Qed.

Lemma std_code_nonempty head tail : head +:+ "_" +:+ tail <> "".
Proof. destruct head; discriminate. Qed.

End EnumerationFacts.

(** The example of the specification: the entry "en-gb" yields "en_GB". *)
Example en_gb_yields_en_GB (compatMap : gmap string string) :
  exists voices,
    get_available_voices compatMap = inr voices
    /\ mkGTTSVoice "gTTS" "en_GB" "en-gb" ∈ voices.
Proof.
  eexists. split; [apply get_available_voices_eq|].
  apply list_elem_of_omap. exists ("en-gb", "English (UK)"). split.
  - apply (bool_decide_unpack _). vm_compute. reflexivity.
  - reflexivity.
Qed.

(** C1: for every entry (code, name) of the locale table whose code
    contains the separator "-", the code splits at the separator into a
    head and a tail, the enumeration returns normally, and its result has
    the voice of that entry with the normalized code made of the head
    lower-cased, an underscore and the tail upper-cased. *)
Theorem region_entry_normalized (compatMap : gmap string string) (code name : string) :
  (code, name) ∈ orig_langs ->
  PyStr.contains "-" code = true ->
  exists head tail voices,
    PyStr.split "-" code = [head; tail]
    /\ code = head +:+ "-" +:+ tail
    /\ get_available_voices compatMap = inr voices
    /\ mkGTTSVoice "gTTS" (PyStr.lower head +:+ "_" +:+ PyStr.upper tail) code ∈ voices.
Proof.
  intros Hin Hdash.
  pose proof (orig_langs_regular_code _ _ Hin) as Hreg.
  unfold regular_code in Hreg. rewrite Hdash in Hreg.
  destruct (PyStr.split "-" code) as [|head [|tail [|? ?]]] eqn:Hsplit; try discriminate.
  apply andb_prop in Hreg as [Hlow Hcat].
  apply bool_decide_eq_true in Hlow. apply bool_decide_eq_true in Hcat.
  exists head, tail. eexists. split; [reflexivity|]. split; [exact Hcat|].
  split; [apply get_available_voices_eq|].
  apply list_elem_of_omap. exists (code, name). split; [exact Hin|].
  unfold entry_voice. rewrite Hdash, Hsplit, Hlow. reflexivity.
Qed.

Lemma region_entry_normalized_witness :
  exists head tail voices,
    PyStr.split "-" "pt-br" = [head; tail]
    /\ "pt-br" = head +:+ "-" +:+ tail
    /\ get_available_voices ({[ "ja" := "ja_JP" ]} : gmap string string) = inr voices
    /\ mkGTTSVoice "gTTS" (PyStr.lower head +:+ "_" +:+ PyStr.upper tail) "pt-br" ∈ voices.
Proof.
  apply (region_entry_normalized {[ "ja" := "ja_JP" ]} "pt-br" "Portuguese (Brazil)").
  - apply (bool_decide_unpack _). vm_compute. reflexivity.
  - reflexivity.
Defined.

(** C2: for every entry of the locale table whose code has no separator,
    the enumeration returns normally and a voice for that entry is in its
    result if and only if the compatibility table maps the code to a
    normalized code, that is to a non-empty string (so, unless the code is
    mapped to the empty string, if and only if the code is mapped at
    all); the voice then carries that normalized code. *)
Theorem bare_entry_emitted_iff_mapped (compatMap : gmap string string) (code name : string) :
  (code, name) ∈ orig_langs ->
  PyStr.contains "-" code = false ->
  exists voices,
    get_available_voices compatMap = inr voices
    /\ ((exists v, v ∈ voices /\ gtts_lang v = code)
        <-> (exists std_code, compatMap !! code = Some std_code /\ std_code <> ""))
    /\ (compatMap !! code <> Some "" ->
          ((exists v, v ∈ voices /\ gtts_lang v = code) <-> is_Some (compatMap !! code)))
    /\ (forall v, v ∈ voices -> gtts_lang v = code ->
          v = mkGTTSVoice "gTTS" (lang v) code /\ compatMap !! code = Some (lang v)).
Proof.
  intros Hin Hbare. eexists. split; [apply get_available_voices_eq|].
  assert (Hfwd : forall v, v ∈ omap (entry_voice compatMap) orig_langs ->
            gtts_lang v = code ->
            v = mkGTTSVoice "gTTS" (lang v) code
            /\ compatMap !! code = Some (lang v) /\ lang v <> "").
  { intros v Hv Hcode. apply list_elem_of_omap in Hv as [[code' name'] [_ Hentry]].
    destruct (entry_voice_gtts_lang _ _ _ Hentry) as [Hlang _].
    simpl in Hlang. rewrite Hcode in Hlang. subst code'.
    unfold entry_voice in Hentry. rewrite Hbare in Hentry.
    destruct (compatMap !! code) as [std|]; [|discriminate].
    destruct (PyStr.truthy std) eqn:Htruthy; [|discriminate].
    injection Hentry as <-. simpl. repeat split. by apply truthy_nonempty. }
  assert (Hbwd : forall std, compatMap !! code = Some std -> std <> "" ->
            exists v, v ∈ omap (entry_voice compatMap) orig_langs /\ gtts_lang v = code).
  { intros std Hmap Hne. exists (mkGTTSVoice "gTTS" std code). split; [|reflexivity].
    apply list_elem_of_omap. exists (code, name). split; [exact Hin|].
    unfold entry_voice. rewrite Hbare, Hmap.
    apply truthy_nonempty in Hne. by rewrite Hne. }
  split; [split|split; [intros Hnot; split|]].
  - intros [v [Hv Hcode]]. exists (lang v).
    by destruct (Hfwd v Hv Hcode) as (_ & ? & ?).
  - intros [std [Hmap Hne]]. by apply (Hbwd std).
  - intros [v [Hv Hcode]]. exists (lang v).
    by destruct (Hfwd v Hv Hcode) as (_ & ? & _).
  - intros [std Hmap]. apply (Hbwd std Hmap). intros ->. by apply Hnot.
  - intros v Hv Hcode. by destruct (Hfwd v Hv Hcode) as (? & ? & _).
Qed.

Lemma bare_entry_emitted_iff_mapped_witness :
  exists voices,
    get_available_voices ({[ "ja" := "ja_JP" ]} : gmap string string) = inr voices
    /\ ((exists v, v ∈ voices /\ gtts_lang v = "ja")
        <-> (exists std_code,
               ({[ "ja" := "ja_JP" ]} : gmap string string) !! "ja" = Some std_code
               /\ std_code <> ""))
    /\ (({[ "ja" := "ja_JP" ]} : gmap string string) !! "ja" <> Some "" ->
          ((exists v, v ∈ voices /\ gtts_lang v = "ja")
           <-> is_Some (({[ "ja" := "ja_JP" ]} : gmap string string) !! "ja")))
    /\ (forall v, v ∈ voices -> gtts_lang v = "ja" ->
          v = mkGTTSVoice "gTTS" (lang v) "ja"
          /\ ({[ "ja" := "ja_JP" ]} : gmap string string) !! "ja" = Some (lang v)).
Proof.
  apply (bare_entry_emitted_iff_mapped {[ "ja" := "ja_JP" ]} "ja" "Japanese").
  - apply (bool_decide_unpack _). vm_compute. reflexivity.
  - reflexivity.
Defined.

(** A bare code the compatibility table does not know, such as "jw" when
    only "ja" is mapped, is dropped; "ja" and "en-us" are both emitted. *)
Example jw_dropped_ja_kept :
  exists voices,
    get_available_voices ({[ "ja" := "ja_JP" ]} : gmap string string) = inr voices
    /\ map gtts_lang (filter (fun v => gtts_lang v = "jw") voices) = []
    /\ mkGTTSVoice "gTTS" "ja_JP" "ja" ∈ voices
    /\ mkGTTSVoice "gTTS" "en_US" "en-us" ∈ voices.
Proof.
  eexists. split; [vm_compute; reflexivity|].
  repeat split; apply (bool_decide_unpack _); vm_compute; reflexivity.
Qed.

(** C7: the enumeration returns normally, every voice it returns has a
    non-empty normalized locale code, and an entry whose code has no
    separator and no (non-empty) image in the compatibility table
    contributes no voice. *)
Theorem voices_have_nonempty_lang (compatMap : gmap string string) :
  exists voices,
    get_available_voices compatMap = inr voices
    /\ (forall v, v ∈ voices -> lang v <> "")
    /\ (forall code name,
          (code, name) ∈ orig_langs ->
          PyStr.contains "-" code = false ->
          compatMap !! code = None \/ compatMap !! code = Some "" ->
          forall v, v ∈ voices -> gtts_lang v <> code).
Proof.
  eexists. split; [apply get_available_voices_eq|]. split.
  - intros v Hv. apply list_elem_of_omap in Hv as [[code name] [_ Hentry]].
    unfold entry_voice in Hentry.
    destruct (PyStr.contains "-" code).
    + destruct (PyStr.split "-" code) as [|head [|tail [|? ?]]]; try discriminate.
      injection Hentry as <-. simpl. apply std_code_nonempty.
    + destruct (compatMap !! code) as [std|]; [|discriminate].
      destruct (PyStr.truthy std) eqn:Htruthy; [|discriminate].
      injection Hentry as <-. simpl. by apply truthy_nonempty.
  - intros code name _ Hbare Hunmapped v Hv Hcode.
    apply list_elem_of_omap in Hv as [[code' name'] [_ Hentry]].
    destruct (entry_voice_gtts_lang _ _ _ Hentry) as [Hlang _].
    simpl in Hlang. rewrite Hcode in Hlang. subst code'.
    unfold entry_voice in Hentry. rewrite Hbare in Hentry.
    destruct Hunmapped as [Hmap | Hmap]; rewrite Hmap in Hentry; discriminate.
Qed.

(** ** Float comparison *)

Lemma SFcompare_antisym x y c :
  SFcompare y x = Some c -> SFcompare x y = Some (CompOpp c).
Proof.
  destruct x as [sx|sx| |sx mx ex], y as [sy|sy| |sy my ey]; simpl;
    try discriminate; intros [= <-]; f_equal;
    repeat match goal with b : bool |- _ => destruct b end; try reflexivity.
  all: rewrite (Z.compare_antisym ey ex); destruct (ey ?= ex)%Z; simpl; try reflexivity.
  all: change Eq with (CompOpp Eq) at 1; rewrite <- Pos.compare_cont_antisym.
  all: by rewrite ?CompOpp_involutive.
Qed.

Lemma float_ge_not_lt x y : float_ge x y = true -> float_lt x y = false.
Proof.
  unfold float_ge, float_lt, SFleb, SFltb.
  destruct (SFcompare y x) as [c|] eqn:Hc; [|discriminate].
  rewrite (SFcompare_antisym _ _ _ Hc). by destruct c.
Qed.

Example speed_below_one_is_slow :
  float_lt Sample.speed_0_8 float_one = true
  /\ float_lt float_one float_one = false
  /\ float_lt Sample.speed_1_5 float_one = false
  /\ float_lt S754_nan float_one = false.
Proof. repeat split. Qed.

(** ** The player *)

Section PlayerFacts.

Variable voice_for_tag : TTSTag -> option TTSVoiceMatch.
Variable temp_file_for_tag_and_voice : TTSTag -> GTTSVoice -> string.
Variable gtts_library : gTTS -> string -> gmap string audio -> option exn * gmap string audio.

Local Abbreviation play :=
  (_play voice_for_tag temp_file_for_tag_and_voice gtts_library).

(** The path [_play] computes for a tag and its matched voice. *)
Local Abbreviation target tag m :=
  (temp_file_for_tag_and_voice tag (voice m) +:+ ".mp3").

Lemma truthy_strip_false txt :
  PyStr.strip txt = "" -> PyStr.truthy (PyStr.strip txt) = false.
Proof. by intros ->. Qed.

Lemma truthy_strip_true txt :
  PyStr.strip txt <> "" -> PyStr.truthy (PyStr.strip txt) = true.
Proof. by destruct (PyStr.strip txt). Qed.

(** With blank text [_play] has no effect at all, matched voice or not. *)
Lemma play_blank tag s :
  PyStr.strip (field_text tag) = "" ->
  play (TTS tag) s
  = (match voice_for_tag tag with Some _ => inr tt | None => inl AssertionError end, s).
Proof.
  intros Hblank. unfold _play.
  destruct (voice_for_tag tag); [|reflexivity].
  by rewrite (truthy_strip_false _ Hblank).
Qed.

(** With text to speak, [_play] first remembers the target path and then
    looks for the file. *)
Lemma play_nonblank tag m s :
  voice_for_tag tag = Some m ->
  PyStr.strip (field_text tag) <> "" ->
  play (TTS tag) s
  = let s1 := mkState (Some (target tag m)) (disk s) (enqueued s) (events s) in
    if bool_decide (is_Some (disk s !! target tag m)) then (inr tt, s1)
    else save gtts_library
           (mk_gTTS (field_text tag) (gtts_lang (voice m)) false
                    (float_lt (speed tag) float_one))
           (target tag m) s1.
Proof.
  intros Hmatch Htext. unfold _play. rewrite Hmatch.
  rewrite (truthy_strip_true _ Htext). cbn.
  by destruct (bool_decide (is_Some (disk s !! target tag m))).
Qed.

(** What [_on_done] does after a successful operation. *)
Lemma on_done_success cb s :
  _on_done (inr tt) cb s
  = match _tmpfile s with
    | Some path =>
        (inr tt,
         mkState (Some path) (disk s) (path :: enqueued s)
                 (events s ++ [EvInsertFile path; EvCallback cb]))
    | None => (inl (AttributeError "_tmpfile"), s)
    end.
Proof.
  unfold _on_done, bind, try_except, get_tmpfile, insert_file, call. cbn.
  destruct (_tmpfile s) as [path|] eqn:Hpath; cbn; [|reflexivity].
  by rewrite Hpath, <- app_assoc.
Qed.

(** C3: when the background operation was interrupted, [_on_done]
    returns normally and leaves the state as it was: the continuation is
    not called and nothing is put in the playback queue. *)
Theorem interrupted_is_swallowed (cb : OnDoneCallback) (s : state) :
  _on_done (inl PlayerInterrupted) cb s = (inr tt, s).
Proof. reflexivity. Qed.

(** C4: a request whose text is empty once stripped makes [_play] return
    normally with the state untouched: no file is written and the
    external library is not called. (Without a matched voice the
    assertion fails first; the state is untouched all the same.) *)
Theorem blank_text_is_noop (tag : TTSTag) (m : TTSVoiceMatch) (s : state) :
  voice_for_tag tag = Some m ->
  PyStr.strip (field_text tag) = "" ->
  play (TTS tag) s = (inr tt, s).
Proof. intros Hmatch Hblank. by rewrite (play_blank _ _ Hblank), Hmatch. Qed.

(** C5: a request with text to speak whose target file exists makes
    [_play] return normally after remembering the path; the disk is the
    same and no call to the external library is logged. *)
Theorem cached_file_skips_synthesis (tag : TTSTag) (m : TTSVoiceMatch) (s : state) :
  voice_for_tag tag = Some m ->
  PyStr.strip (field_text tag) <> "" ->
  is_Some (disk s !! target tag m) ->
  play (TTS tag) s
  = (inr tt, mkState (Some (target tag m)) (disk s) (enqueued s) (events s)).
Proof.
  intros Hmatch Htext Hfile. rewrite (play_nonblank _ _ _ Hmatch Htext). cbn.
  by rewrite (bool_decide_eq_true_2 _ Hfile).
Qed.

(** C6: a request that reaches the external library (text to speak, no
    file at the target path) makes exactly one library call, for the
    target path, with the tag's text, the voice's gTTS code, the language
    check off, and a slow flag that is true if and only if the speed is
    below 1 and false whenever the speed is at least 1. *)
Theorem slow_flag_iff_speed_below_one (tag : TTSTag) (m : TTSVoiceMatch) (s : state) :
  voice_for_tag tag = Some m ->
  PyStr.strip (field_text tag) <> "" ->
  disk s !! target tag m = None ->
  exists tts,
    events (snd (play (TTS tag) s)) = events s ++ [EvSave tts (target tag m)]
    /\ text tts = field_text tag
    /\ tts_lang tts = gtts_lang (voice m)
    /\ lang_check tts = false
    /\ (slow tts = true <-> float_lt (speed tag) float_one = true)
    /\ (float_ge (speed tag) float_one = true -> slow tts = false).
Proof.
  intros Hmatch Htext Hfile. rewrite (play_nonblank _ _ _ Hmatch Htext). cbn.
  rewrite bool_decide_eq_false_2 by (rewrite Hfile; by intros [? ?]).
  eexists. split.
  - unfold save. cbn. destruct (gtts_library _ _ _) as [[e|] d']; reflexivity.
  - cbn. repeat split; try done. apply float_ge_not_lt.
Qed.

(** C8: when the background operation raised an error other than the
    interruption, [_on_done] raises that same error and leaves the state
    as it was: the continuation is not called. *)
Theorem failure_propagates (e : exn) (cb : OnDoneCallback) (s : state) :
  e <> PlayerInterrupted ->
  _on_done (inl e) cb s = (inl e, s).
Proof. intros He. by destruct e. Qed.

(** C9: when the background operation succeeded, [_on_done] puts the
    remembered path at the front of the playback queue and then calls
    the continuation, once, and returns normally. *)
Theorem success_enqueues_then_continues (cb : OnDoneCallback) (s : state) (path : string) :
  _tmpfile s = Some path ->
  _on_done (inr tt) cb s
  = (inr tt,
     mkState (Some path) (disk s) (path :: enqueued s)
             (events s ++ [EvInsertFile path; EvCallback cb])).
Proof.
  intros Hpath. by rewrite on_done_success, Hpath.
Qed.

(** C10: [_play] on a blank tag leaves [_tmpfile] as it was. A
    successful [_on_done] after it therefore enqueues the path an earlier
    request remembered, and when the attribute was never assigned it
    raises [AttributeError] and neither enqueues a file nor calls the
    continuation. *)
Theorem blank_play_keeps_tmpfile (tag : TTSTag) (m : TTSVoiceMatch)
    (cb : OnDoneCallback) (s : state) :
  voice_for_tag tag = Some m ->
  PyStr.strip (field_text tag) = "" ->
  let s1 := snd (play (TTS tag) s) in
  _tmpfile s1 = _tmpfile s
  /\ (forall earlier, _tmpfile s = Some earlier ->
        _on_done (inr tt) cb s1
        = (inr tt,
           mkState (Some earlier) (disk s) (earlier :: enqueued s)
                   (events s ++ [EvInsertFile earlier; EvCallback cb])))
  /\ (_tmpfile s = None ->
        _on_done (inr tt) cb s1 = (inl (AttributeError "_tmpfile"), s)).
Proof.
  intros Hmatch Hblank s1. subst s1.
  rewrite (play_blank _ _ Hblank), Hmatch. cbn [snd].
  split; [reflexivity|]. split.
  - intros earlier Hpath. by rewrite on_done_success, Hpath.
  - intros Hunset. by rewrite on_done_success, Hunset.
Qed.

End PlayerFacts.

(** ** Worked examples on the sample host *)

Section SampleRuns.

Local Abbreviation play :=
  (_play Sample.voice_for_tag Sample.temp_file_for_tag_and_voice Sample.gtts_library).

Local Abbreviation en_us_match := (mkTTSVoiceMatch Sample.en_us (-100)).

(** The state after "hello" was synthesized by a fresh player. *)
Local Abbreviation after_hello :=
  (mkState (Some Sample.hello_path)
           ({[ Sample.hello_path := [Byte.x00] ]} : gmap string audio)
           []
           [EvSave (mk_gTTS "hello" "en-us" false true) Sample.hello_path]).

Example play_hello :
  play (TTS Sample.hello) (new_player ∅ []) = (inr tt, after_hello).
Proof. reflexivity. Qed.

Lemma blank_text_is_noop_witness :
  play (TTS Sample.blank) (new_player ∅ []) = (inr tt, new_player ∅ []).
Proof.
  apply (blank_text_is_noop Sample.voice_for_tag Sample.temp_file_for_tag_and_voice
           Sample.gtts_library Sample.blank en_us_match); reflexivity.
Defined.

Lemma cached_file_skips_synthesis_witness :
  play (TTS Sample.hello) (mkState None {[ Sample.hello_path := [] ]} [] [])
  = (inr tt, mkState (Some Sample.hello_path) {[ Sample.hello_path := [] ]} [] []).
Proof.
  refine (cached_file_skips_synthesis Sample.voice_for_tag
            Sample.temp_file_for_tag_and_voice Sample.gtts_library
            Sample.hello en_us_match
            (mkState None {[ Sample.hello_path := [] ]} [] []) _ _ _).
  - reflexivity.
  - vm_compute. discriminate.
  - apply (bool_decide_unpack _). vm_compute. reflexivity.
Defined.

Lemma slow_flag_iff_speed_below_one_witness :
  exists tts,
    events (snd (play (TTS Sample.hello) (new_player ∅ [])))
    = [] ++ [EvSave tts Sample.hello_path]
    /\ text tts = "hello"
    /\ tts_lang tts = "en-us"
    /\ lang_check tts = false
    /\ (slow tts = true <-> float_lt Sample.speed_0_8 float_one = true)
    /\ (float_ge Sample.speed_0_8 float_one = true -> slow tts = false).
Proof.
  apply (slow_flag_iff_speed_below_one Sample.voice_for_tag Sample.temp_file_for_tag_and_voice
           Sample.gtts_library Sample.hello en_us_match (new_player ∅ [])).
  - reflexivity.
  - vm_compute. discriminate.
  - reflexivity.
Defined.

Lemma failure_propagates_witness :
  _on_done (inl (ExternalError "gTTSError")) 0 after_hello
  = (inl (ExternalError "gTTSError"), after_hello).
Proof. apply (failure_propagates (ExternalError "gTTSError")). discriminate. Defined.

Lemma success_enqueues_then_continues_witness :
  _on_done (inr tt) 7 (mkState (Some Sample.hello_path) ∅ ["bell.mp3"] [])
  = (inr tt,
     mkState (Some Sample.hello_path) ∅ [Sample.hello_path; "bell.mp3"]
             ([] ++ [EvInsertFile Sample.hello_path; EvCallback 7])).
Proof.
  apply (success_enqueues_then_continues 7
           (mkState (Some Sample.hello_path) ∅ ["bell.mp3"] [])).
  reflexivity.
Defined.

Lemma blank_play_keeps_tmpfile_witness :
  let s1 := snd (play (TTS Sample.blank) after_hello) in
  _tmpfile s1 = _tmpfile after_hello
  /\ (forall earlier, _tmpfile after_hello = Some earlier ->
        _on_done (inr tt) 7 s1
        = (inr tt,
           mkState (Some earlier) (disk after_hello) (earlier :: enqueued after_hello)
                   (events after_hello ++ [EvInsertFile earlier; EvCallback 7])))
  /\ (_tmpfile after_hello = None ->
        _on_done (inr tt) 7 s1 = (inl (AttributeError "_tmpfile"), after_hello)).
Proof.
  apply (blank_play_keeps_tmpfile Sample.voice_for_tag Sample.temp_file_for_tag_and_voice
           Sample.gtts_library Sample.blank en_us_match 7 after_hello);
    reflexivity.
Defined.

(** A blank tag played after "hello": the completion handler enqueues the
    file of "hello" again. *)
Example stale_path_enqueued :
  let s1 := snd (play (TTS Sample.blank) after_hello) in
  enqueued (snd (_on_done (inr tt) 7 s1)) = [Sample.hello_path].
Proof. reflexivity. Qed.

(** A blank tag played by a fresh player: the completion handler raises
    and the queue stays empty. *)
Example unset_tmpfile_raises :
  let s1 := snd (play (TTS Sample.blank) (new_player ∅ [])) in
  _on_done (inr tt) 7 s1 = (inl (AttributeError "_tmpfile"), new_player ∅ []).
Proof. reflexivity. Qed.

End SampleRuns.

(** * Further properties *)

(** ** Strings *)

Lemma split_length sep s :
  length (PyStr.split sep s) = S (count_char sep s).
Proof.
  induction s as [|c rest IH]; [reflexivity|]. simpl.
  destruct (Ascii.eqb c sep); simpl; [by rewrite IH|].
  destruct (PyStr.split sep rest); simpl in *; lia.
Qed.

Lemma contains_count sep s :
  PyStr.contains sep s = true <-> 1 <= count_char sep s.
Proof.
  induction s as [|c rest IH]; simpl.
  - split; [discriminate | lia].
  - destruct (Ascii.eqb c sep); [split; [lia | done] | exact IH].
Qed.

Lemma lstrip_all_whitespace s :
  all_whitespace (PyStr.lstrip s) = all_whitespace s.
Proof.
  induction s as [|c rest IH]; [reflexivity|]. simpl.
  destruct (PyStr.isspace c) eqn:Hc; simpl; [exact IH | by rewrite Hc].
Qed.

Lemma rstrip_empty_iff s :
  PyStr.rstrip s = "" <-> all_whitespace s = true.
Proof.
  induction s as [|c rest IH]; simpl; [done|].
  destruct (PyStr.rstrip rest) eqn:Hrest.
  - destruct (PyStr.isspace c); simpl.
    + split; [intros _; by apply IH | done].
    + split; discriminate.
  - split; [discriminate|]. intros H. apply andb_prop in H as [_ H].
    apply IH in H. discriminate.
Qed.

Lemma strip_empty_iff s :
  PyStr.strip s = "" <-> all_whitespace s = true.
Proof.
  unfold PyStr.strip. by rewrite rstrip_empty_iff, lstrip_all_whitespace.
Qed.

(** ** Voice enumeration *)

Section EnumerationMore.

Variable compatMap : gmap string string.

Lemma voices_step_raises voices code name e :
  voices_step compatMap voices (code, name) = inl e
  <-> e = ValueError /\ 2 <= count_char "-" code.
Proof.
  unfold voices_step.
  pose proof (split_length "-" code) as Hlen.
  pose proof (contains_count "-" code) as Hcount.
  destruct (PyStr.contains "-" code).
  - assert (1 <= count_char "-" code) as Hone by by apply Hcount.
    destruct (PyStr.split "-" code) as [|head [|tail [|? ?]]]; simpl in Hlen.
    + lia.
    + lia.
    + split; [discriminate | intros [_ ?]; lia].
    + split; [intros [= <-]; split; [done | lia] | by intros [-> _]].
  - assert (count_char "-" code = 0) as Hzero.
    { destruct (count_char "-" code); [done|].
      assert (false = true) by (apply Hcount; lia). discriminate. }
    split.
    + destruct (compatMap !! code) as [std|]; [destruct (PyStr.truthy std)|];
        discriminate.
    + intros [_ ?]. lia.
Qed.

Lemma entry_voice_is_Some item :
  regular_code (fst item) = true ->
  is_Some (entry_voice compatMap item)
  <-> has_region item = true \/ bare_mapped compatMap item = true.
Proof.
  destruct item as [code name]. unfold regular_code, entry_voice, bare_mapped,
    has_region, mapped. simpl.
  destruct (PyStr.contains "-" code); simpl.
  - destruct (PyStr.split "-" code) as [|head [|tail [|? ?]]]; try discriminate.
    intros _. split; [by left | by eexists].
  - intros _. destruct (compatMap !! code) as [std|]; simpl.
    + destruct (PyStr.truthy std).
      * split; [by right | by eexists].
      * split; [intros [? ?]; discriminate | intros [?|?]; discriminate].
    + split; [intros [? ?]; discriminate | intros [?|?]; discriminate].
Qed.

Lemma omap_gtts_lang_sublist items :
  map gtts_lang (omap (entry_voice compatMap) items) `sublist_of` map fst items.
Proof.
  induction items as [|item rest IH]; [constructor|].
  cbn [omap list_omap]. destruct (entry_voice compatMap item) as [v|] eqn:Hv.
  - simpl. destruct (entry_voice_gtts_lang _ _ _ Hv) as [-> _].
    by apply sublist_skip.
  - simpl. by apply sublist_cons.
Qed.

Lemma omap_length_regular items :
  regular_table items = true ->
  length (omap (entry_voice compatMap) items)
  = length (List.filter has_region items)
    + length (List.filter (bare_mapped compatMap) items).
Proof.
  induction items as [|item rest IH]; [reflexivity|]. intros Hreg.
  simpl in Hreg. apply andb_prop in Hreg as [Hitem Hrest].
  apply andb_prop in Hitem as [Hcode _].
  specialize (IH Hrest). pose proof (entry_voice_is_Some item Hcode) as Hsome.
  cbn [omap list_omap List.filter].
  assert (has_region item = true -> bare_mapped compatMap item = false) as Hexcl.
  { unfold bare_mapped. by intros ->. }
  destruct (entry_voice compatMap item) as [v|].
  - destruct Hsome as [Hsome _].
    destruct (Hsome (mk_is_Some _ _ eq_refl)) as [Hr|Hb].
    + rewrite Hr, (Hexcl Hr). simpl. lia.
    + rewrite Hb. destruct (has_region item) eqn:Hr.
      * rewrite (Hexcl eq_refl) in Hb. discriminate.
      * simpl. lia.
  - destruct Hsome as [_ Hsome].
    destruct (has_region item) eqn:Hr.
    { destruct (Hsome (or_introl eq_refl)) as [? ?]. discriminate. }
    destruct (bare_mapped compatMap item) eqn:Hb.
    { destruct (Hsome (or_intror eq_refl)) as [? ?]. discriminate. }
    simpl. lia.
Qed.

Lemma entry_voice_empty item :
  entry_voice ∅ item
  = match entry_voice compatMap item with
    | Some v => if region_voice v then Some v else None
    | None => None
    end.
Proof.
  destruct item as [code name]. unfold entry_voice, region_voice.
  destruct (PyStr.contains "-" code) eqn:Hdash.
  - destruct (PyStr.split "-" code) as [|head [|tail [|? ?]]]; try reflexivity.
    simpl. by rewrite Hdash.
  - rewrite lookup_empty. destruct (compatMap !! code) as [std|]; [|reflexivity].
    destruct (PyStr.truthy std); [|reflexivity]. simpl. by rewrite Hdash.
Qed.

Lemma omap_region_voices items :
  List.filter region_voice (omap (entry_voice compatMap) items)
  = omap (entry_voice ∅) items.
Proof.
  induction items as [|item rest IH]; [reflexivity|].
  cbn [omap list_omap]. rewrite (entry_voice_empty item).
  destruct (entry_voice compatMap item) as [v|]; [|exact IH].
  cbn [List.filter]. destruct (region_voice v); [by rewrite IH | exact IH].
Qed.

End EnumerationMore.

(** X1: every voice of the enumeration is named "gTTS" and carries as
    gTTS code a key of the locale table, whatever the compatibility table. *)
Theorem voices_named_and_keyed (compatMap : gmap string string) :
  exists voices,
    get_available_voices compatMap = inr voices
    /\ forall v, v ∈ voices ->
         name v = "gTTS" /\ exists label, (gtts_lang v, label) ∈ orig_langs.
Proof.
  eexists. split; [apply get_available_voices_eq|].
  intros v Hv. apply list_elem_of_omap in Hv as [[code label] [Hin Hentry]].
  destruct (entry_voice_gtts_lang _ _ _ Hentry) as [Hcode Hname].
  simpl in Hcode. split; [exact Hname|]. exists label. by rewrite Hcode.
Qed.

(** X2: the gTTS codes of the enumerated voices are a subsequence of the
    table's keys, in table order, and no code occurs twice: each key gives
    at most one voice. *)
Theorem voices_follow_table_order (compatMap : gmap string string) :
  exists voices,
    get_available_voices compatMap = inr voices
    /\ map gtts_lang voices `sublist_of` map fst orig_langs
    /\ NoDup (map gtts_lang voices).
Proof.
  eexists. split; [apply get_available_voices_eq|].
  pose proof (omap_gtts_lang_sublist compatMap orig_langs) as Hsub.
  split; [exact Hsub|].
  assert (NoDup (map fst orig_langs)) as Hkeys
    by (apply (bool_decide_unpack _); vm_compute; reflexivity).
  eauto using sublist_NoDup.
Qed.

(** X3: the number of voices is the number of keys with a separator, 21,
    plus the number of bare keys the compatibility table maps to a
    non-empty code; it lies between 21 and the size of the table, 74. *)
Theorem voice_count (compatMap : gmap string string) :
  exists voices,
    get_available_voices compatMap = inr voices
    /\ length (List.filter has_region orig_langs) = 21
    /\ length voices
       = length (List.filter has_region orig_langs)
         + length (List.filter (bare_mapped compatMap) orig_langs)
    /\ 21 <= length voices <= 74.
Proof.
  eexists. split; [apply get_available_voices_eq|].
  assert (length (List.filter has_region orig_langs) = 21) as Hregion
    by (vm_compute; reflexivity).
  assert (length orig_langs = 74) as Htable by (vm_compute; reflexivity).
  split; [exact Hregion|].
  pose proof (omap_length_regular compatMap _ orig_langs_regular) as Hlen.
  split; [exact Hlen|].
  pose proof (sublist_length _ _ (omap_gtts_lang_sublist compatMap orig_langs)) as Hle.
  rewrite !length_map in Hle. lia.
Qed.

(** X4: the compatibility table only matters for bare keys: the voices
    with a separator in their gTTS code are, in order, the 21 voices the
    enumeration returns for an empty compatibility table. *)
Theorem region_voices_independent_of_compatMap (compatMap : gmap string string) :
  exists voices region,
    get_available_voices compatMap = inr voices
    /\ get_available_voices ∅ = inr region
    /\ List.filter region_voice voices = region
    /\ length region = 21.
Proof.
  do 2 eexists. split; [apply get_available_voices_eq|].
  split; [apply get_available_voices_eq|].
  split; [apply omap_region_voices | vm_compute; reflexivity].
Qed.

(** X5: the loop of the enumeration, run over any table, raises exactly
    when some key has two or more separators (the unpacking of
    [code.split("-")] into two names fails), and the exception is then
    [ValueError]; the voices collected so far are lost. *)
Theorem loop_raises_iff_two_separators (compatMap : gmap string string)
    (items : list (string * string)) (voices : list GTTSVoice) :
  (forall e, voices_loop compatMap items voices = inl e -> e = ValueError)
  /\ (voices_loop compatMap items voices = inl ValueError
      <-> Exists (fun item => 2 <= count_char "-" (fst item)) items).
Proof.
  revert voices. induction items as [|[code label] rest IH]; intros voices.
  - split; [discriminate|]. split; [discriminate|]. intros H. inversion H.
  - cbn [voices_loop].
    destruct (voices_step compatMap voices (code, label)) as [e|voices'] eqn:Hstep.
    + apply voices_step_raises in Hstep as [-> Htwo].
      split; [by intros e [= <-]|]. split; [|done]. intros _. by left.
    + destruct (IH voices') as [IHe IHiff]. split; [exact IHe|].
      rewrite IHiff. split; [by right|].
      intros H. inversion H as [? ? Htwo|]; subst; [|done].
      assert (voices_step compatMap voices (code, label) = inl ValueError) as Hraise
        by by apply voices_step_raises.
      rewrite Hraise in Hstep. discriminate.
Qed.

(** A table with the key "zh-hans-cn" makes the loop raise. *)
Example three_part_code_raises :
  voices_loop ∅ [("en-us", "English (US)"); ("zh-hans-cn", "Chinese")] []
  = inl ValueError.
Proof. reflexivity. Qed.

(** ** Float comparison, continued *)

Lemma SFcompare_defined x y :
  x <> S754_nan -> y <> S754_nan -> exists c, SFcompare x y = Some c.
Proof.
  intros Hx Hy. destruct x, y; simpl; try done; eauto.
Qed.

Lemma float_lt_false_iff x :
  float_lt x float_one = false <-> float_ge x float_one = true \/ x = S754_nan.
Proof.
  split.
  - intros Hlt.
    assert (x = S754_nan \/ x <> S754_nan) as [|Hx]
      by (destruct x; [right | right | left | right]; done).
    { by right. }
    left.
    destruct (SFcompare_defined float_one x) as [c Hc]; [done | exact Hx |].
    pose proof (SFcompare_antisym _ _ _ Hc) as Hc'.
    unfold float_lt, SFltb in Hlt. unfold float_ge, SFleb.
    rewrite Hc. rewrite Hc' in Hlt. by destruct c.
  - intros [Hge | ->]; [by apply float_ge_not_lt | reflexivity].
Qed.

(** ** The player, continued *)

Section PlayerMore.

Variable voice_for_tag : TTSTag -> option TTSVoiceMatch.
Variable temp_file_for_tag_and_voice : TTSTag -> GTTSVoice -> string.
Variable gtts_library : gTTS -> string -> gmap string audio -> option exn * gmap string audio.

Local Abbreviation play :=
  (_play voice_for_tag temp_file_for_tag_and_voice gtts_library).

Local Abbreviation req :=
  (request voice_for_tag temp_file_for_tag_and_voice gtts_library).

Local Abbreviation target tag m :=
  (temp_file_for_tag_and_voice tag (voice m) +:+ ".mp3").

(** The object [_play] hands to the library for a tag and its voice. *)
Local Abbreviation tts_for tag m :=
  (mk_gTTS (field_text tag) (gtts_lang (voice m)) false
           (float_lt (speed tag) float_one)).

(** [_play] when it reaches the library. *)
Lemma play_synthesizes tag m s :
  voice_for_tag tag = Some m ->
  PyStr.strip (field_text tag) <> "" ->
  disk s !! target tag m = None ->
  play (TTS tag) s
  = let '(failure, disk') := gtts_library (tts_for tag m) (target tag m) (disk s) in
    (match failure with Some e => inl e | None => inr tt end,
     mkState (Some (target tag m)) disk' (enqueued s)
             (events s ++ [EvSave (tts_for tag m) (target tag m)])).
Proof.
  intros Hmatch Htext Hfile.
  rewrite (play_nonblank _ _ _ _ _ _ Hmatch Htext). cbn zeta.
  rewrite bool_decide_eq_false_2 by (rewrite Hfile; by intros [? ?]).
  unfold save. cbn.
  by destruct (gtts_library _ _ _) as [[e|] d'].
Qed.

(** [_play] when the file is there. *)
Lemma play_cached tag m s :
  voice_for_tag tag = Some m ->
  PyStr.strip (field_text tag) <> "" ->
  is_Some (disk s !! target tag m) ->
  play (TTS tag) s
  = (inr tt, mkState (Some (target tag m)) (disk s) (enqueued s) (events s)).
Proof.
  intros Hmatch Htext Hfile.
  rewrite (play_nonblank _ _ _ _ _ _ Hmatch Htext). cbn zeta.
  by rewrite (bool_decide_eq_true_2 _ Hfile).
Qed.

Lemma app_singleton_neq {A : Type} (l : list A) (x : A) : l <> l ++ [x].
Proof.
  intros H. apply (f_equal length) in H. rewrite length_app in H. simpl in H. lia.
Qed.

(** X6: what [_play] leaves alone, for any tag and state: it never touches
    the playback queue; it calls the library at most once; when it does
    not, the disk is as before; when it does, no file existed at the path
    and the path handed to the library is the one remembered in
    [_tmpfile]. *)
Theorem play_footprint (tag : AVTag) (s : state) :
  let s' := snd (play tag s) in
  enqueued s' = enqueued s
  /\ ((events s' = events s /\ disk s' = disk s)
      \/ (exists tts path,
            events s' = events s ++ [EvSave tts path]
            /\ _tmpfile s' = Some path
            /\ disk s !! path = None)).
Proof.
  destruct tag as [filename|tag]; [cbn; auto|].
  destruct (voice_for_tag tag) as [m|] eqn:Hmatch.
  2:{ unfold _play. rewrite Hmatch. cbn. auto. }
  destruct (decide (PyStr.strip (field_text tag) = "")) as [Hblank|Htext].
  { rewrite (play_blank _ _ _ _ _ Hblank), Hmatch. cbn. auto. }
  destruct (disk s !! target tag m) as [a|] eqn:Hfile.
  - rewrite (play_cached _ _ _ Hmatch Htext) by (rewrite Hfile; by eexists).
    cbn. auto.
  - rewrite (play_synthesizes _ _ _ Hmatch Htext Hfile).
    destruct (gtts_library _ _ _) as [failure d']. cbn.
    split; [done|]. right. by do 2 eexists.
Qed.

Lemma on_done_failure e cb s :
  _on_done (inl e) cb s = (if is_PlayerInterrupted e then inr tt else inl e, s).
Proof. by destruct e. Qed.

Lemma request_unfold tag cb s :
  req tag cb s = _on_done (fst (play tag s)) cb (snd (play tag s)).
Proof. unfold request. by destruct (play tag s). Qed.

(** X7: a tag that is not a TTS tag, or a TTS tag no voice matches, fails
    the assertions of [_play]; the completion handler re-raises the
    [AssertionError], nothing is enqueued and the continuation is not
    called. *)
Theorem unplayable_tag_raises (cb : OnDoneCallback) (s : state) :
  (forall filename, req (SoundOrVideoTag filename) cb s = (inl AssertionError, s))
  /\ (forall tag, voice_for_tag tag = None ->
        req (TTS tag) cb s = (inl AssertionError, s)).
Proof.
  split; [reflexivity|]. intros tag Hmatch.
  rewrite request_unfold. unfold _play. by rewrite Hmatch.
Qed.

(** X8: for a tag with a matched voice, [_play] is a no-op when every
    character of the text is whitespace (the empty text included), and
    otherwise it remembers the target path in [_tmpfile]. *)
Theorem play_blank_iff_whitespace (tag : TTSTag) (m : TTSVoiceMatch) (s : state) :
  voice_for_tag tag = Some m ->
  (all_whitespace (field_text tag) = true -> play (TTS tag) s = (inr tt, s))
  /\ (all_whitespace (field_text tag) = false ->
        _tmpfile (snd (play (TTS tag) s)) = Some (target tag m)).
Proof.
  intros Hmatch. split; intros Hws.
  - apply strip_empty_iff in Hws. by rewrite (play_blank _ _ _ _ _ Hws), Hmatch.
  - assert (PyStr.strip (field_text tag) <> "") as Htext.
    { intros Hblank. apply strip_empty_iff in Hblank. congruence. }
    rewrite (play_nonblank _ _ _ _ _ _ Hmatch Htext). cbn zeta.
    destruct (bool_decide _); [reflexivity|].
    unfold save. cbn. by destruct (gtts_library _ _ _) as [[e|] d'].
Qed.

(** X9: a whole request that synthesizes: with a matched voice, text to
    speak, no file at the target path and a library call that succeeds,
    the request returns normally, the target path is at the front of the
    queue, and the calls made are, in order, the library call, the
    insertion of the target path and the continuation. *)
Theorem request_synthesizes_then_enqueues (tag : TTSTag) (m : TTSVoiceMatch)
    (cb : OnDoneCallback) (s : state) (disk' : gmap string audio) :
  voice_for_tag tag = Some m ->
  PyStr.strip (field_text tag) <> "" ->
  disk s !! target tag m = None ->
  gtts_library (tts_for tag m) (target tag m) (disk s) = (None, disk') ->
  req (TTS tag) cb s
  = (inr tt,
     mkState (Some (target tag m)) disk' (target tag m :: enqueued s)
             (events s ++ [EvSave (tts_for tag m) (target tag m);
                           EvInsertFile (target tag m); EvCallback cb])).
Proof.
  intros Hmatch Htext Hfile Hlib.
  rewrite request_unfold, (play_synthesizes _ _ _ Hmatch Htext Hfile), Hlib.
  cbn [fst snd]. rewrite on_done_success. cbn. by rewrite <- app_assoc.
Qed.

(** X10: a whole request served from the cache: with a matched voice,
    text to speak and a file at the target path, the request returns
    normally, the target path is put at the front of the queue and the
    continuation is called, with no library call and the disk as before. *)
Theorem request_cache_hit_enqueues (tag : TTSTag) (m : TTSVoiceMatch)
    (cb : OnDoneCallback) (s : state) :
  voice_for_tag tag = Some m ->
  PyStr.strip (field_text tag) <> "" ->
  is_Some (disk s !! target tag m) ->
  req (TTS tag) cb s
  = (inr tt,
     mkState (Some (target tag m)) (disk s) (target tag m :: enqueued s)
             (events s ++ [EvInsertFile (target tag m); EvCallback cb])).
Proof.
  intros Hmatch Htext Hfile.
  rewrite request_unfold, (play_cached _ _ _ Hmatch Htext Hfile).
  cbn [fst snd]. by rewrite on_done_success.
Qed.

(** X11: a whole request whose library call fails: the exception of the
    library is raised by the request (an interruption is swallowed
    instead), nothing is enqueued and the continuation is not called;
    [_tmpfile] already names the target path. *)
Theorem request_library_failure (tag : TTSTag) (m : TTSVoiceMatch)
    (cb : OnDoneCallback) (s : state) (e : exn) (disk' : gmap string audio) :
  voice_for_tag tag = Some m ->
  PyStr.strip (field_text tag) <> "" ->
  disk s !! target tag m = None ->
  gtts_library (tts_for tag m) (target tag m) (disk s) = (Some e, disk') ->
  req (TTS tag) cb s
  = (if is_PlayerInterrupted e then inr tt else inl e,
     mkState (Some (target tag m)) disk' (enqueued s)
             (events s ++ [EvSave (tts_for tag m) (target tag m)])).
Proof.
  intros Hmatch Htext Hfile Hlib.
  rewrite request_unfold, (play_synthesizes _ _ _ Hmatch Htext Hfile), Hlib.
  cbn [fst snd]. by rewrite on_done_failure.
Qed.

(** X12: synthesis is done once: after a request that synthesized a file
    which the library did put at the target path, [_play] for the same
    tag is a cache hit that changes nothing at all. *)
Theorem second_play_is_cache_hit (tag : TTSTag) (m : TTSVoiceMatch)
    (cb : OnDoneCallback) (s : state) (disk' : gmap string audio) :
  voice_for_tag tag = Some m ->
  PyStr.strip (field_text tag) <> "" ->
  disk s !! target tag m = None ->
  gtts_library (tts_for tag m) (target tag m) (disk s) = (None, disk') ->
  is_Some (disk' !! target tag m) ->
  let s1 := snd (req (TTS tag) cb s) in
  play (TTS tag) s1 = (inr tt, s1).
Proof.
  intros Hmatch Htext Hfile Hlib Hsaved s1. subst s1.
  rewrite request_unfold, (play_synthesizes _ _ _ Hmatch Htext Hfile), Hlib.
  cbn [fst snd]. rewrite on_done_success. cbn [_tmpfile snd].
  by rewrite (play_cached _ _ _ Hmatch Htext) by exact Hsaved.
Qed.

(** X13: what [_on_done] leaves alone, for any future and state: the disk
    and [_tmpfile] are never changed and the library is never called;
    either nothing happens to the queue and the continuation is not
    called, or, when the operation succeeded with [_tmpfile] set, exactly
    one path is put at the front and the continuation is called once
    after it. *)
Theorem on_done_footprint (fut : Future) (cb : OnDoneCallback) (s : state) :
  let s' := snd (_on_done fut cb s) in
  disk s' = disk s
  /\ _tmpfile s' = _tmpfile s
  /\ ((enqueued s' = enqueued s /\ events s' = events s
       /\ (fut = inr tt -> _tmpfile s = None))
      \/ (exists path,
            fut = inr tt /\ _tmpfile s = Some path
            /\ fst (_on_done fut cb s) = inr tt
            /\ enqueued s' = path :: enqueued s
            /\ events s' = events s ++ [EvInsertFile path; EvCallback cb])).
Proof.
  destruct fut as [e|[]].
  - rewrite on_done_failure. cbn. repeat split; try done. left. by repeat split.
  - rewrite on_done_success. destruct (_tmpfile s) as [path|] eqn:Hpath; cbn.
    + repeat split; try done. right. exists path. by repeat split.
    + repeat split; try done. left. by repeat split.
Qed.

(** X14: in the library call, the slow flag is false exactly when the
    speed is at least 1 or is a NaN. *)
Theorem slow_flag_false_iff (tag : TTSTag) (m : TTSVoiceMatch) (s : state) :
  voice_for_tag tag = Some m ->
  PyStr.strip (field_text tag) <> "" ->
  disk s !! target tag m = None ->
  exists tts,
    events (snd (play (TTS tag) s)) = events s ++ [EvSave tts (target tag m)]
    /\ (slow tts = false
        <-> float_ge (speed tag) float_one = true \/ speed tag = S754_nan).
Proof.
  intros Hmatch Htext Hfile. exists (tts_for tag m).
  rewrite (play_synthesizes _ _ _ Hmatch Htext Hfile).
  destruct (gtts_library _ _ _) as [failure d']. cbn [snd events].
  split; [reflexivity|]. apply float_lt_false_iff.
Qed.

(** X15: the language code handed to the library is a key of the locale
    table whenever the host matched the tag to a voice of the
    enumeration; this is what makes turning the library's own language
    check off safe. *)
Theorem library_lang_is_table_key (compatMap : gmap string string)
    (voices : list GTTSVoice) (tag : TTSTag) (m : TTSVoiceMatch) (s : state)
    (tts : gTTS) (path : string) :
  get_available_voices compatMap = inr voices ->
  voice m ∈ voices ->
  voice_for_tag tag = Some m ->
  events (snd (play (TTS tag) s)) = events s ++ [EvSave tts path] ->
  tts_lang tts ∈ map fst orig_langs.
Proof.
  intros Hvoices Hin Hmatch Hcall.
  rewrite get_available_voices_eq in Hvoices.
  apply (inj inr) in Hvoices. rewrite <- Hvoices in Hin. clear Hvoices.
  apply list_elem_of_omap in Hin as [[code label] [Hitem Hentry]].
  destruct (entry_voice_gtts_lang _ _ _ Hentry) as [Hcode _]. simpl in Hcode.
  assert (tts_lang tts = gtts_lang (voice m)) as ->.
  { destruct (decide (PyStr.strip (field_text tag) = "")) as [Hblank|Htext].
    { rewrite (play_blank _ _ _ _ _ Hblank), Hmatch in Hcall. cbn in Hcall.
      by apply app_singleton_neq in Hcall. }
    destruct (disk s !! target tag m) as [a|] eqn:Hfile.
    - rewrite (play_cached _ _ _ Hmatch Htext) in Hcall by (rewrite Hfile; by eexists).
      cbn in Hcall. by apply app_singleton_neq in Hcall.
    - rewrite (play_synthesizes _ _ _ Hmatch Htext Hfile) in Hcall.
      destruct (gtts_library _ _ _) as [failure d']. cbn [snd events] in Hcall.
      apply app_inv_head in Hcall. by injection Hcall as <- _. }
  rewrite Hcode. apply list_elem_of_fmap. by exists (code, label).
Qed.

End PlayerMore.

(** ** Further worked examples on the sample host *)

Section SampleRunsMore.

Local Abbreviation play :=
  (_play Sample.voice_for_tag Sample.temp_file_for_tag_and_voice Sample.gtts_library).

Local Abbreviation req :=
  (request Sample.voice_for_tag Sample.temp_file_for_tag_and_voice Sample.gtts_library).

(** The same host with a library that fails. *)
Local Abbreviation req_failing e :=
  (request Sample.voice_for_tag Sample.temp_file_for_tag_and_voice (failing_library e)).

Local Abbreviation en_us_match := (mkTTSVoiceMatch Sample.en_us (-100)).

Local Abbreviation hello_tts := (mk_gTTS "hello" "en-us" false true).

Local Abbreviation hello_disk :=
  ({[ Sample.hello_path := [Byte.x00] ]} : gmap string audio).

Lemma play_blank_iff_whitespace_witness :
  (all_whitespace (field_text Sample.blank) = true ->
     play (TTS Sample.blank) (new_player ∅ []) = (inr tt, new_player ∅ []))
  /\ (all_whitespace (field_text Sample.blank) = false ->
        _tmpfile (snd (play (TTS Sample.blank) (new_player ∅ [])))
        = Some (Sample.temp_file_for_tag_and_voice Sample.blank Sample.en_us +:+ ".mp3")).
Proof.
  refine (play_blank_iff_whitespace Sample.voice_for_tag
            Sample.temp_file_for_tag_and_voice Sample.gtts_library
            Sample.blank en_us_match (new_player ∅ []) _).
  reflexivity.
Defined.

Lemma request_synthesizes_then_enqueues_witness :
  req (TTS Sample.hello) 7 (new_player ∅ ["bell.mp3"])
  = (inr tt,
     mkState (Some Sample.hello_path) hello_disk [Sample.hello_path; "bell.mp3"]
             [EvSave hello_tts Sample.hello_path;
              EvInsertFile Sample.hello_path; EvCallback 7]).
Proof.
  refine (request_synthesizes_then_enqueues Sample.voice_for_tag
            Sample.temp_file_for_tag_and_voice Sample.gtts_library
            Sample.hello en_us_match 7 (new_player ∅ ["bell.mp3"]) hello_disk _ _ _ _).
  - reflexivity.
  - vm_compute. discriminate.
  - reflexivity.
  - reflexivity.
Defined.

Lemma request_cache_hit_enqueues_witness :
  req (TTS Sample.hello) 7 (mkState None hello_disk [] [])
  = (inr tt,
     mkState (Some Sample.hello_path) hello_disk [Sample.hello_path]
             [EvInsertFile Sample.hello_path; EvCallback 7]).
Proof.
  refine (request_cache_hit_enqueues Sample.voice_for_tag
            Sample.temp_file_for_tag_and_voice Sample.gtts_library
            Sample.hello en_us_match 7 (mkState None hello_disk [] []) _ _ _).
  - reflexivity.
  - vm_compute. discriminate.
  - apply (bool_decide_unpack _). vm_compute. reflexivity.
Defined.

Lemma request_library_failure_witness :
  req_failing (ExternalError "gTTSError") (TTS Sample.hello) 7 (new_player ∅ ["bell.mp3"])
  = (inl (ExternalError "gTTSError"),
     mkState (Some Sample.hello_path) ∅ ["bell.mp3"]
             [EvSave hello_tts Sample.hello_path]).
Proof.
  refine (request_library_failure Sample.voice_for_tag
            Sample.temp_file_for_tag_and_voice
            (failing_library (ExternalError "gTTSError"))
            Sample.hello en_us_match 7 (new_player ∅ ["bell.mp3"])
            (ExternalError "gTTSError") ∅ _ _ _ _).
  - reflexivity.
  - vm_compute. discriminate.
  - reflexivity.
  - reflexivity.
Defined.

Lemma second_play_is_cache_hit_witness :
  let s1 := snd (req (TTS Sample.hello) 7 (new_player ∅ [])) in
  play (TTS Sample.hello) s1 = (inr tt, s1).
Proof.
  refine (second_play_is_cache_hit Sample.voice_for_tag
            Sample.temp_file_for_tag_and_voice Sample.gtts_library
            Sample.hello en_us_match 7 (new_player ∅ []) hello_disk _ _ _ _ _).
  - reflexivity.
  - vm_compute. discriminate.
  - reflexivity.
  - reflexivity.
  - apply (bool_decide_unpack _). vm_compute. reflexivity.
Defined.

Lemma slow_flag_false_iff_witness :
  exists tts,
    events (snd (play (TTS Sample.hello) (new_player ∅ [])))
    = [] ++ [EvSave tts Sample.hello_path]
    /\ (slow tts = false
        <-> float_ge Sample.speed_0_8 float_one = true \/ Sample.speed_0_8 = S754_nan).
Proof.
  refine (slow_flag_false_iff Sample.voice_for_tag
            Sample.temp_file_for_tag_and_voice Sample.gtts_library
            Sample.hello en_us_match (new_player ∅ []) _ _ _).
  - reflexivity.
  - vm_compute. discriminate.
  - reflexivity.
Defined.

Lemma library_lang_is_table_key_witness :
  "en-us" ∈ map fst orig_langs.
Proof.
  refine (library_lang_is_table_key Sample.voice_for_tag
            Sample.temp_file_for_tag_and_voice Sample.gtts_library
            ∅ (omap (entry_voice ∅) orig_langs)
            Sample.hello en_us_match (new_player ∅ [])
            hello_tts Sample.hello_path _ _ _ _).
  - vm_compute. reflexivity.
  - apply (bool_decide_unpack _). vm_compute. reflexivity.
  - reflexivity.
  - reflexivity.
Defined.

(** Two requests for "hello" in a row: one library call, the file
    enqueued twice. *)
Example hello_twice :
  let s1 := snd (req (TTS Sample.hello) 7 (new_player ∅ [])) in
  snd (req (TTS Sample.hello) 8 s1)
  = mkState (Some Sample.hello_path) hello_disk
            [Sample.hello_path; Sample.hello_path]
            [EvSave hello_tts Sample.hello_path;
             EvInsertFile Sample.hello_path; EvCallback 7;
             EvInsertFile Sample.hello_path; EvCallback 8].
Proof. reflexivity. Qed.

End SampleRunsMore.
